(** * Verbo: the conjugation-mismatch analyser

    A shallow embedding of [analyze_conjugations.py]: the regular-form
    generators, the comparison key ([normalize_conjugation]) and the
    mismatch report ([compare_with_regular]), with the properties the
    specification states about them. *)

From stdpp Require Import strings list gmap.
From Stdlib Require Import NArith.

Local Open Scope N_scope.

(** ** Python strings

    A Python [str] is a sequence of Unicode code points.  String literals
    of the source are written [py "..."]: the literal's UTF-8 bytes are
    decoded into code points, as the Python parser does for a source file
    in its default encoding. *)

Definition str : Type := list N.

Fixpoint utf8_decode (acc : N) (pending : nat) (bs : list N) : str :=
  match bs with
  | [] => []
  | b :: bs' =>
      match pending with
      | 1%nat => (acc * 64 + b mod 64) :: utf8_decode 0 0 bs'
      | S k => utf8_decode (acc * 64 + b mod 64) k bs'
      | O =>
          if b <? 0x80 then b :: utf8_decode 0 0 bs'
          else if b <? 0xE0 then utf8_decode (b mod 32) 1 bs'
          else if b <? 0xF0 then utf8_decode (b mod 16) 2 bs'
          else utf8_decode (b mod 8) 3 bs'
      end
  end.

Definition py (lit : string) : str :=
  utf8_decode 0 0 (map Ascii.N_of_ascii (String.list_ascii_of_string lit)).

(** [s[:-k]]: all but the last [k] code points; the empty string when
    [s] has fewer than [k]. *)
Definition drop_last (k : nat) (s : str) : str := take (length s - k) s.

(** [s.endswith(suffix)] *)
Definition endswith (s suffix : str) : bool :=
  bool_decide (drop (length s - length suffix) s = suffix).

(** ** The Unicode tables behind [str.lower] and [str.strip]

    The case tables are those of the Unicode Character Database 14.0.0,
    which CPython 3.11 ships; the functions follow [unicodeobject.c] and
    [unicodectype.c]. *)

Module Unicode.

Definition in_ranges (c : N) (ranges : list (N * N)) : bool :=
  existsb (fun r => (r.1 <=? c) && (c <=? r.2)) ranges.

Fixpoint assoc (c : N) (table : list (N * N)) : option N :=
  match table with
  | [] => None
  | (k, v) :: table' => if k =? c then Some v else assoc c table'
  end.

(** Simple lower-case mappings, as runs [(lo, hi, step, target)]: the
    code points [lo], [lo + step], ... up to [hi] map to [target],
    [target + step], ... *)
Definition lower_runs : list (N * N * N * N) := [
  (0x41,0x5A,1,0x61); (0xC0,0xD6,1,0xE0); (0xD8,0xDE,1,0xF8);
  (0x100,0x12E,2,0x101); (0x132,0x136,2,0x133); (0x139,0x147,2,0x13A);
  (0x14A,0x176,2,0x14B); (0x178,0x178,1,0xFF); (0x179,0x17D,2,0x17A);
  (0x181,0x181,1,0x253); (0x182,0x184,2,0x183); (0x186,0x186,1,0x254);
  (0x187,0x187,1,0x188); (0x189,0x18A,1,0x256); (0x18B,0x18B,1,0x18C);
  (0x18E,0x18E,1,0x1DD); (0x18F,0x18F,1,0x259); (0x190,0x190,1,0x25B);
  (0x191,0x191,1,0x192); (0x193,0x193,1,0x260); (0x194,0x194,1,0x263);
  (0x196,0x196,1,0x269); (0x197,0x197,1,0x268); (0x198,0x198,1,0x199);
  (0x19C,0x19C,1,0x26F); (0x19D,0x19D,1,0x272); (0x19F,0x19F,1,0x275);
  (0x1A0,0x1A4,2,0x1A1); (0x1A6,0x1A6,1,0x280); (0x1A7,0x1A7,1,0x1A8);
  (0x1A9,0x1A9,1,0x283); (0x1AC,0x1AC,1,0x1AD); (0x1AE,0x1AE,1,0x288);
  (0x1AF,0x1AF,1,0x1B0); (0x1B1,0x1B2,1,0x28A); (0x1B3,0x1B5,2,0x1B4);
  (0x1B7,0x1B7,1,0x292); (0x1B8,0x1B8,1,0x1B9); (0x1BC,0x1BC,1,0x1BD);
  (0x1C4,0x1C4,1,0x1C6); (0x1C5,0x1C5,1,0x1C6); (0x1C7,0x1C7,1,0x1C9);
  (0x1C8,0x1C8,1,0x1C9); (0x1CA,0x1CA,1,0x1CC); (0x1CB,0x1DB,2,0x1CC);
  (0x1DE,0x1EE,2,0x1DF); (0x1F1,0x1F1,1,0x1F3); (0x1F2,0x1F4,2,0x1F3);
  (0x1F6,0x1F6,1,0x195); (0x1F7,0x1F7,1,0x1BF); (0x1F8,0x21E,2,0x1F9);
  (0x220,0x220,1,0x19E); (0x222,0x232,2,0x223); (0x23A,0x23A,1,0x2C65);
  (0x23B,0x23B,1,0x23C); (0x23D,0x23D,1,0x19A); (0x23E,0x23E,1,0x2C66);
  (0x241,0x241,1,0x242); (0x243,0x243,1,0x180); (0x244,0x244,1,0x289);
  (0x245,0x245,1,0x28C); (0x246,0x24E,2,0x247); (0x370,0x372,2,0x371);
  (0x376,0x376,1,0x377); (0x37F,0x37F,1,0x3F3); (0x386,0x386,1,0x3AC);
  (0x388,0x38A,1,0x3AD); (0x38C,0x38C,1,0x3CC); (0x38E,0x38F,1,0x3CD);
  (0x391,0x3A1,1,0x3B1); (0x3A3,0x3AB,1,0x3C3); (0x3CF,0x3CF,1,0x3D7);
  (0x3D8,0x3EE,2,0x3D9); (0x3F4,0x3F4,1,0x3B8); (0x3F7,0x3F7,1,0x3F8);
  (0x3F9,0x3F9,1,0x3F2); (0x3FA,0x3FA,1,0x3FB); (0x3FD,0x3FF,1,0x37B);
  (0x400,0x40F,1,0x450); (0x410,0x42F,1,0x430); (0x460,0x480,2,0x461);
  (0x48A,0x4BE,2,0x48B); (0x4C0,0x4C0,1,0x4CF); (0x4C1,0x4CD,2,0x4C2);
  (0x4D0,0x52E,2,0x4D1); (0x531,0x556,1,0x561); (0x10A0,0x10C5,1,0x2D00);
  (0x10C7,0x10C7,1,0x2D27); (0x10CD,0x10CD,1,0x2D2D);
  (0x13A0,0x13EF,1,0xAB70); (0x13F0,0x13F5,1,0x13F8);
  (0x1C90,0x1CBA,1,0x10D0); (0x1CBD,0x1CBF,1,0x10FD);
  (0x1E00,0x1E94,2,0x1E01); (0x1E9E,0x1E9E,1,0xDF); (0x1EA0,0x1EFE,2,0x1EA1);
  (0x1F08,0x1F0F,1,0x1F00); (0x1F18,0x1F1D,1,0x1F10);
  (0x1F28,0x1F2F,1,0x1F20); (0x1F38,0x1F3F,1,0x1F30);
  (0x1F48,0x1F4D,1,0x1F40); (0x1F59,0x1F5F,2,0x1F51);
  (0x1F68,0x1F6F,1,0x1F60); (0x1F88,0x1F8F,1,0x1F80);
  (0x1F98,0x1F9F,1,0x1F90); (0x1FA8,0x1FAF,1,0x1FA0);
  (0x1FB8,0x1FB9,1,0x1FB0); (0x1FBA,0x1FBB,1,0x1F70);
  (0x1FBC,0x1FBC,1,0x1FB3); (0x1FC8,0x1FCB,1,0x1F72);
  (0x1FCC,0x1FCC,1,0x1FC3); (0x1FD8,0x1FD9,1,0x1FD0);
  (0x1FDA,0x1FDB,1,0x1F76); (0x1FE8,0x1FE9,1,0x1FE0);
  (0x1FEA,0x1FEB,1,0x1F7A); (0x1FEC,0x1FEC,1,0x1FE5);
  (0x1FF8,0x1FF9,1,0x1F78); (0x1FFA,0x1FFB,1,0x1F7C);
  (0x1FFC,0x1FFC,1,0x1FF3); (0x2126,0x2126,1,0x3C9); (0x212A,0x212A,1,0x6B);
  (0x212B,0x212B,1,0xE5); (0x2132,0x2132,1,0x214E); (0x2160,0x216F,1,0x2170);
  (0x2183,0x2183,1,0x2184); (0x24B6,0x24CF,1,0x24D0);
  (0x2C00,0x2C2F,1,0x2C30); (0x2C60,0x2C60,1,0x2C61);
  (0x2C62,0x2C62,1,0x26B); (0x2C63,0x2C63,1,0x1D7D); (0x2C64,0x2C64,1,0x27D);
  (0x2C67,0x2C6B,2,0x2C68); (0x2C6D,0x2C6D,1,0x251); (0x2C6E,0x2C6E,1,0x271);
  (0x2C6F,0x2C6F,1,0x250); (0x2C70,0x2C70,1,0x252); (0x2C72,0x2C72,1,0x2C73);
  (0x2C75,0x2C75,1,0x2C76); (0x2C7E,0x2C7F,1,0x23F);
  (0x2C80,0x2CE2,2,0x2C81); (0x2CEB,0x2CED,2,0x2CEC);
  (0x2CF2,0x2CF2,1,0x2CF3); (0xA640,0xA66C,2,0xA641);
  (0xA680,0xA69A,2,0xA681); (0xA722,0xA72E,2,0xA723);
  (0xA732,0xA76E,2,0xA733); (0xA779,0xA77B,2,0xA77A);
  (0xA77D,0xA77D,1,0x1D79); (0xA77E,0xA786,2,0xA77F);
  (0xA78B,0xA78B,1,0xA78C); (0xA78D,0xA78D,1,0x265);
  (0xA790,0xA792,2,0xA791); (0xA796,0xA7A8,2,0xA797);
  (0xA7AA,0xA7AA,1,0x266); (0xA7AB,0xA7AB,1,0x25C); (0xA7AC,0xA7AC,1,0x261);
  (0xA7AD,0xA7AD,1,0x26C); (0xA7AE,0xA7AE,1,0x26A); (0xA7B0,0xA7B0,1,0x29E);
  (0xA7B1,0xA7B1,1,0x287); (0xA7B2,0xA7B2,1,0x29D); (0xA7B3,0xA7B3,1,0xAB53);
  (0xA7B4,0xA7C2,2,0xA7B5); (0xA7C4,0xA7C4,1,0xA794);
  (0xA7C5,0xA7C5,1,0x282); (0xA7C6,0xA7C6,1,0x1D8E);
  (0xA7C7,0xA7C9,2,0xA7C8); (0xA7D0,0xA7D0,1,0xA7D1);
  (0xA7D6,0xA7D8,2,0xA7D7); (0xA7F5,0xA7F5,1,0xA7F6);
  (0xFF21,0xFF3A,1,0xFF41); (0x10400,0x10427,1,0x10428);
  (0x104B0,0x104D3,1,0x104D8); (0x10570,0x1057A,1,0x10597);
  (0x1057C,0x1058A,1,0x105A3); (0x1058C,0x10592,1,0x105B3);
  (0x10594,0x10595,1,0x105BB); (0x10C80,0x10CB2,1,0x10CC0);
  (0x118A0,0x118BF,1,0x118C0); (0x16E40,0x16E5F,1,0x16E60);
  (0x1E900,0x1E921,1,0x1E922)
]%N.

Definition expand_run (r : N * N * N * N) : list (N * N) :=
  let '(lo, hi, step, target) := r in
  map (fun k => (lo + N.of_nat k * step, target + N.of_nat k * step))
      (seq 0 (S (N.to_nat ((hi - lo) / step)))).

Definition lower_table : list (N * N) :=
  Eval vm_compute in flat_map expand_run lower_runs.

(** The code points with the property Case_Ignorable. *)
Definition case_ignorable_ranges : list (N * N) := [
  (0x27,0x27); (0x2E,0x2E); (0x3A,0x3A); (0x5E,0x5E); (0x60,0x60);
  (0xA8,0xA8); (0xAD,0xAD); (0xAF,0xAF); (0xB4,0xB4); (0xB7,0xB8);
  (0x2B0,0x36F); (0x374,0x375); (0x37A,0x37A); (0x384,0x385); (0x387,0x387);
  (0x483,0x489); (0x559,0x559); (0x55F,0x55F); (0x591,0x5BD); (0x5BF,0x5BF);
  (0x5C1,0x5C2); (0x5C4,0x5C5); (0x5C7,0x5C7); (0x5F4,0x5F4); (0x600,0x605);
  (0x610,0x61A); (0x61C,0x61C); (0x640,0x640); (0x64B,0x65F); (0x670,0x670);
  (0x6D6,0x6DD); (0x6DF,0x6E8); (0x6EA,0x6ED); (0x70F,0x70F); (0x711,0x711);
  (0x730,0x74A); (0x7A6,0x7B0); (0x7EB,0x7F5); (0x7FA,0x7FA); (0x7FD,0x7FD);
  (0x816,0x82D); (0x859,0x85B); (0x888,0x888); (0x890,0x891); (0x898,0x89F);
  (0x8C9,0x902); (0x93A,0x93A); (0x93C,0x93C); (0x941,0x948); (0x94D,0x94D);
  (0x951,0x957); (0x962,0x963); (0x971,0x971); (0x981,0x981); (0x9BC,0x9BC);
  (0x9C1,0x9C4); (0x9CD,0x9CD); (0x9E2,0x9E3); (0x9FE,0x9FE); (0xA01,0xA02);
  (0xA3C,0xA3C); (0xA41,0xA42); (0xA47,0xA48); (0xA4B,0xA4D); (0xA51,0xA51);
  (0xA70,0xA71); (0xA75,0xA75); (0xA81,0xA82); (0xABC,0xABC); (0xAC1,0xAC5);
  (0xAC7,0xAC8); (0xACD,0xACD); (0xAE2,0xAE3); (0xAFA,0xAFF); (0xB01,0xB01);
  (0xB3C,0xB3C); (0xB3F,0xB3F); (0xB41,0xB44); (0xB4D,0xB4D); (0xB55,0xB56);
  (0xB62,0xB63); (0xB82,0xB82); (0xBC0,0xBC0); (0xBCD,0xBCD); (0xC00,0xC00);
  (0xC04,0xC04); (0xC3C,0xC3C); (0xC3E,0xC40); (0xC46,0xC48); (0xC4A,0xC4D);
  (0xC55,0xC56); (0xC62,0xC63); (0xC81,0xC81); (0xCBC,0xCBC); (0xCBF,0xCBF);
  (0xCC6,0xCC6); (0xCCC,0xCCD); (0xCE2,0xCE3); (0xD00,0xD01); (0xD3B,0xD3C);
  (0xD41,0xD44); (0xD4D,0xD4D); (0xD62,0xD63); (0xD81,0xD81); (0xDCA,0xDCA);
  (0xDD2,0xDD4); (0xDD6,0xDD6); (0xE31,0xE31); (0xE34,0xE3A); (0xE46,0xE4E);
  (0xEB1,0xEB1); (0xEB4,0xEBC); (0xEC6,0xEC6); (0xEC8,0xECD); (0xF18,0xF19);
  (0xF35,0xF35); (0xF37,0xF37); (0xF39,0xF39); (0xF71,0xF7E); (0xF80,0xF84);
  (0xF86,0xF87); (0xF8D,0xF97); (0xF99,0xFBC); (0xFC6,0xFC6);
  (0x102D,0x1030); (0x1032,0x1037); (0x1039,0x103A); (0x103D,0x103E);
  (0x1058,0x1059); (0x105E,0x1060); (0x1071,0x1074); (0x1082,0x1082);
  (0x1085,0x1086); (0x108D,0x108D); (0x109D,0x109D); (0x10FC,0x10FC);
  (0x135D,0x135F); (0x1712,0x1714); (0x1732,0x1733); (0x1752,0x1753);
  (0x1772,0x1773); (0x17B4,0x17B5); (0x17B7,0x17BD); (0x17C6,0x17C6);
  (0x17C9,0x17D3); (0x17D7,0x17D7); (0x17DD,0x17DD); (0x180B,0x180F);
  (0x1843,0x1843); (0x1885,0x1886); (0x18A9,0x18A9); (0x1920,0x1922);
  (0x1927,0x1928); (0x1932,0x1932); (0x1939,0x193B); (0x1A17,0x1A18);
  (0x1A1B,0x1A1B); (0x1A56,0x1A56); (0x1A58,0x1A5E); (0x1A60,0x1A60);
  (0x1A62,0x1A62); (0x1A65,0x1A6C); (0x1A73,0x1A7C); (0x1A7F,0x1A7F);
  (0x1AA7,0x1AA7); (0x1AB0,0x1ACE); (0x1B00,0x1B03); (0x1B34,0x1B34);
  (0x1B36,0x1B3A); (0x1B3C,0x1B3C); (0x1B42,0x1B42); (0x1B6B,0x1B73);
  (0x1B80,0x1B81); (0x1BA2,0x1BA5); (0x1BA8,0x1BA9); (0x1BAB,0x1BAD);
  (0x1BE6,0x1BE6); (0x1BE8,0x1BE9); (0x1BED,0x1BED); (0x1BEF,0x1BF1);
  (0x1C2C,0x1C33); (0x1C36,0x1C37); (0x1C78,0x1C7D); (0x1CD0,0x1CD2);
  (0x1CD4,0x1CE0); (0x1CE2,0x1CE8); (0x1CED,0x1CED); (0x1CF4,0x1CF4);
  (0x1CF8,0x1CF9); (0x1D2C,0x1D6A); (0x1D78,0x1D78); (0x1D9B,0x1DFF);
  (0x1FBD,0x1FBD); (0x1FBF,0x1FC1); (0x1FCD,0x1FCF); (0x1FDD,0x1FDF);
  (0x1FED,0x1FEF); (0x1FFD,0x1FFE); (0x200B,0x200F); (0x2018,0x2019);
  (0x2024,0x2024); (0x2027,0x2027); (0x202A,0x202E); (0x2060,0x2064);
  (0x2066,0x206F); (0x2071,0x2071); (0x207F,0x207F); (0x2090,0x209C);
  (0x20D0,0x20F0); (0x2C7C,0x2C7D); (0x2CEF,0x2CF1); (0x2D6F,0x2D6F);
  (0x2D7F,0x2D7F); (0x2DE0,0x2DFF); (0x2E2F,0x2E2F); (0x3005,0x3005);
  (0x302A,0x302D); (0x3031,0x3035); (0x303B,0x303B); (0x3099,0x309E);
  (0x30FC,0x30FE); (0xA015,0xA015); (0xA4F8,0xA4FD); (0xA60C,0xA60C);
  (0xA66F,0xA672); (0xA674,0xA67D); (0xA67F,0xA67F); (0xA69C,0xA69F);
  (0xA6F0,0xA6F1); (0xA700,0xA721); (0xA770,0xA770); (0xA788,0xA78A);
  (0xA7F2,0xA7F4); (0xA7F8,0xA7F9); (0xA802,0xA802); (0xA806,0xA806);
  (0xA80B,0xA80B); (0xA825,0xA826); (0xA82C,0xA82C); (0xA8C4,0xA8C5);
  (0xA8E0,0xA8F1); (0xA8FF,0xA8FF); (0xA926,0xA92D); (0xA947,0xA951);
  (0xA980,0xA982); (0xA9B3,0xA9B3); (0xA9B6,0xA9B9); (0xA9BC,0xA9BD);
  (0xA9CF,0xA9CF); (0xA9E5,0xA9E6); (0xAA29,0xAA2E); (0xAA31,0xAA32);
  (0xAA35,0xAA36); (0xAA43,0xAA43); (0xAA4C,0xAA4C); (0xAA70,0xAA70);
  (0xAA7C,0xAA7C); (0xAAB0,0xAAB0); (0xAAB2,0xAAB4); (0xAAB7,0xAAB8);
  (0xAABE,0xAABF); (0xAAC1,0xAAC1); (0xAADD,0xAADD); (0xAAEC,0xAAED);
  (0xAAF3,0xAAF4); (0xAAF6,0xAAF6); (0xAB5B,0xAB5F); (0xAB69,0xAB6B);
  (0xABE5,0xABE5); (0xABE8,0xABE8); (0xABED,0xABED); (0xFB1E,0xFB1E);
  (0xFBB2,0xFBC2); (0xFE00,0xFE0F); (0xFE13,0xFE13); (0xFE20,0xFE2F);
  (0xFE52,0xFE52); (0xFE55,0xFE55); (0xFEFF,0xFEFF); (0xFF07,0xFF07);
  (0xFF0E,0xFF0E); (0xFF1A,0xFF1A); (0xFF3E,0xFF3E); (0xFF40,0xFF40);
  (0xFF70,0xFF70); (0xFF9E,0xFF9F); (0xFFE3,0xFFE3); (0xFFF9,0xFFFB);
  (0x101FD,0x101FD); (0x102E0,0x102E0); (0x10376,0x1037A); (0x10780,0x10785);
  (0x10787,0x107B0); (0x107B2,0x107BA); (0x10A01,0x10A03); (0x10A05,0x10A06);
  (0x10A0C,0x10A0F); (0x10A38,0x10A3A); (0x10A3F,0x10A3F); (0x10AE5,0x10AE6);
  (0x10D24,0x10D27); (0x10EAB,0x10EAC); (0x10F46,0x10F50); (0x10F82,0x10F85);
  (0x11001,0x11001); (0x11038,0x11046); (0x11070,0x11070); (0x11073,0x11074);
  (0x1107F,0x11081); (0x110B3,0x110B6); (0x110B9,0x110BA); (0x110BD,0x110BD);
  (0x110C2,0x110C2); (0x110CD,0x110CD); (0x11100,0x11102); (0x11127,0x1112B);
  (0x1112D,0x11134); (0x11173,0x11173); (0x11180,0x11181); (0x111B6,0x111BE);
  (0x111C9,0x111CC); (0x111CF,0x111CF); (0x1122F,0x11231); (0x11234,0x11234);
  (0x11236,0x11237); (0x1123E,0x1123E); (0x112DF,0x112DF); (0x112E3,0x112EA);
  (0x11300,0x11301); (0x1133B,0x1133C); (0x11340,0x11340); (0x11366,0x1136C);
  (0x11370,0x11374); (0x11438,0x1143F); (0x11442,0x11444); (0x11446,0x11446);
  (0x1145E,0x1145E); (0x114B3,0x114B8); (0x114BA,0x114BA); (0x114BF,0x114C0);
  (0x114C2,0x114C3); (0x115B2,0x115B5); (0x115BC,0x115BD); (0x115BF,0x115C0);
  (0x115DC,0x115DD); (0x11633,0x1163A); (0x1163D,0x1163D); (0x1163F,0x11640);
  (0x116AB,0x116AB); (0x116AD,0x116AD); (0x116B0,0x116B5); (0x116B7,0x116B7);
  (0x1171D,0x1171F); (0x11722,0x11725); (0x11727,0x1172B); (0x1182F,0x11837);
  (0x11839,0x1183A); (0x1193B,0x1193C); (0x1193E,0x1193E); (0x11943,0x11943);
  (0x119D4,0x119D7); (0x119DA,0x119DB); (0x119E0,0x119E0); (0x11A01,0x11A0A);
  (0x11A33,0x11A38); (0x11A3B,0x11A3E); (0x11A47,0x11A47); (0x11A51,0x11A56);
  (0x11A59,0x11A5B); (0x11A8A,0x11A96); (0x11A98,0x11A99); (0x11C30,0x11C36);
  (0x11C38,0x11C3D); (0x11C3F,0x11C3F); (0x11C92,0x11CA7); (0x11CAA,0x11CB0);
  (0x11CB2,0x11CB3); (0x11CB5,0x11CB6); (0x11D31,0x11D36); (0x11D3A,0x11D3A);
  (0x11D3C,0x11D3D); (0x11D3F,0x11D45); (0x11D47,0x11D47); (0x11D90,0x11D91);
  (0x11D95,0x11D95); (0x11D97,0x11D97); (0x11EF3,0x11EF4); (0x13430,0x13438);
  (0x16AF0,0x16AF4); (0x16B30,0x16B36); (0x16B40,0x16B43); (0x16F4F,0x16F4F);
  (0x16F8F,0x16F9F); (0x16FE0,0x16FE1); (0x16FE3,0x16FE4); (0x1AFF0,0x1AFF3);
  (0x1AFF5,0x1AFFB); (0x1AFFD,0x1AFFE); (0x1BC9D,0x1BC9E); (0x1BCA0,0x1BCA3);
  (0x1CF00,0x1CF2D); (0x1CF30,0x1CF46); (0x1D167,0x1D169); (0x1D173,0x1D182);
  (0x1D185,0x1D18B); (0x1D1AA,0x1D1AD); (0x1D242,0x1D244); (0x1DA00,0x1DA36);
  (0x1DA3B,0x1DA6C); (0x1DA75,0x1DA75); (0x1DA84,0x1DA84); (0x1DA9B,0x1DA9F);
  (0x1DAA1,0x1DAAF); (0x1E000,0x1E006); (0x1E008,0x1E018); (0x1E01B,0x1E021);
  (0x1E023,0x1E024); (0x1E026,0x1E02A); (0x1E130,0x1E13D); (0x1E2AE,0x1E2AE);
  (0x1E2EC,0x1E2EF); (0x1E8D0,0x1E8D6); (0x1E944,0x1E94B); (0x1F3FB,0x1F3FF);
  (0xE0001,0xE0001); (0xE0020,0xE007F); (0xE0100,0xE01EF)
]%N.

(** The code points with the property Cased. *)
Definition cased_ranges : list (N * N) := [
  (0x41,0x5A); (0x61,0x7A); (0xAA,0xAA); (0xB5,0xB5); (0xBA,0xBA);
  (0xC0,0xD6); (0xD8,0xF6); (0xF8,0x1BA); (0x1BC,0x1BF); (0x1C4,0x293);
  (0x295,0x2B8); (0x2C0,0x2C1); (0x2E0,0x2E4); (0x345,0x345); (0x370,0x373);
  (0x376,0x377); (0x37A,0x37D); (0x37F,0x37F); (0x386,0x386); (0x388,0x38A);
  (0x38C,0x38C); (0x38E,0x3A1); (0x3A3,0x3F5); (0x3F7,0x481); (0x48A,0x52F);
  (0x531,0x556); (0x560,0x588); (0x10A0,0x10C5); (0x10C7,0x10C7);
  (0x10CD,0x10CD); (0x10D0,0x10FA); (0x10FD,0x10FF); (0x13A0,0x13F5);
  (0x13F8,0x13FD); (0x1C80,0x1C88); (0x1C90,0x1CBA); (0x1CBD,0x1CBF);
  (0x1D00,0x1DBF); (0x1E00,0x1F15); (0x1F18,0x1F1D); (0x1F20,0x1F45);
  (0x1F48,0x1F4D); (0x1F50,0x1F57); (0x1F59,0x1F59); (0x1F5B,0x1F5B);
  (0x1F5D,0x1F5D); (0x1F5F,0x1F7D); (0x1F80,0x1FB4); (0x1FB6,0x1FBC);
  (0x1FBE,0x1FBE); (0x1FC2,0x1FC4); (0x1FC6,0x1FCC); (0x1FD0,0x1FD3);
  (0x1FD6,0x1FDB); (0x1FE0,0x1FEC); (0x1FF2,0x1FF4); (0x1FF6,0x1FFC);
  (0x2071,0x2071); (0x207F,0x207F); (0x2090,0x209C); (0x2102,0x2102);
  (0x2107,0x2107); (0x210A,0x2113); (0x2115,0x2115); (0x2119,0x211D);
  (0x2124,0x2124); (0x2126,0x2126); (0x2128,0x2128); (0x212A,0x212D);
  (0x212F,0x2134); (0x2139,0x2139); (0x213C,0x213F); (0x2145,0x2149);
  (0x214E,0x214E); (0x2160,0x217F); (0x2183,0x2184); (0x24B6,0x24E9);
  (0x2C00,0x2CE4); (0x2CEB,0x2CEE); (0x2CF2,0x2CF3); (0x2D00,0x2D25);
  (0x2D27,0x2D27); (0x2D2D,0x2D2D); (0xA640,0xA66D); (0xA680,0xA69D);
  (0xA722,0xA787); (0xA78B,0xA78E); (0xA790,0xA7CA); (0xA7D0,0xA7D1);
  (0xA7D3,0xA7D3); (0xA7D5,0xA7D9); (0xA7F5,0xA7F6); (0xA7F8,0xA7FA);
  (0xAB30,0xAB5A); (0xAB5C,0xAB68); (0xAB70,0xABBF); (0xFB00,0xFB06);
  (0xFB13,0xFB17); (0xFF21,0xFF3A); (0xFF41,0xFF5A); (0x10400,0x1044F);
  (0x104B0,0x104D3); (0x104D8,0x104FB); (0x10570,0x1057A); (0x1057C,0x1058A);
  (0x1058C,0x10592); (0x10594,0x10595); (0x10597,0x105A1); (0x105A3,0x105B1);
  (0x105B3,0x105B9); (0x105BB,0x105BC); (0x10780,0x10780); (0x10783,0x10785);
  (0x10787,0x107B0); (0x107B2,0x107BA); (0x10C80,0x10CB2); (0x10CC0,0x10CF2);
  (0x118A0,0x118DF); (0x16E40,0x16E7F); (0x1D400,0x1D454); (0x1D456,0x1D49C);
  (0x1D49E,0x1D49F); (0x1D4A2,0x1D4A2); (0x1D4A5,0x1D4A6); (0x1D4A9,0x1D4AC);
  (0x1D4AE,0x1D4B9); (0x1D4BB,0x1D4BB); (0x1D4BD,0x1D4C3); (0x1D4C5,0x1D505);
  (0x1D507,0x1D50A); (0x1D50D,0x1D514); (0x1D516,0x1D51C); (0x1D51E,0x1D539);
  (0x1D53B,0x1D53E); (0x1D540,0x1D544); (0x1D546,0x1D546); (0x1D54A,0x1D550);
  (0x1D552,0x1D6A5); (0x1D6A8,0x1D6C0); (0x1D6C2,0x1D6DA); (0x1D6DC,0x1D6FA);
  (0x1D6FC,0x1D714); (0x1D716,0x1D734); (0x1D736,0x1D74E); (0x1D750,0x1D76E);
  (0x1D770,0x1D788); (0x1D78A,0x1D7A8); (0x1D7AA,0x1D7C2); (0x1D7C4,0x1D7CB);
  (0x1DF00,0x1DF09); (0x1DF0B,0x1DF1E); (0x1E900,0x1E943); (0x1F130,0x1F149);
  (0x1F150,0x1F169); (0x1F170,0x1F189)
]%N.

Definition is_case_ignorable (c : N) : bool := in_ranges c case_ignorable_ranges.
Definition is_cased (c : N) : bool := in_ranges c cased_ranges.

(** [_PyUnicode_ToLowerFull]: U+0130 is the one code point whose
    lower-case form has two code points. *)
Definition to_lower_full (c : N) : list N :=
  if c =? 0x130 then [0x69; 0x307]
  else match assoc c lower_table with
       | Some d => [d]
       | None => [c]
       end.

(** [Py_UNICODE_ISSPACE] *)
Definition is_space (c : N) : bool :=
  in_ranges c [(0x9, 0xD); (0x1C, 0x20); (0x85, 0x85); (0xA0, 0xA0);
               (0x1680, 0x1680); (0x2000, 0x200A); (0x2028, 0x2029);
               (0x202F, 0x202F); (0x205F, 0x205F); (0x3000, 0x3000)].

End Unicode.

(** ** [str.lower], [str.strip] and [str.replace] *)

Fixpoint skip_while (p : N → bool) (s : str) : str :=
  match s with
  | [] => []
  | c :: s' => if p c then skip_while p s' else s
  end.

(** [handle_capital_sigma]: U+03A3 becomes the final sigma U+03C2 when a
    cased code point precedes it and none follows, case-ignorable code
    points being skipped on both sides.  [before] is the text to the
    left, nearest code point first. *)
Definition handle_capital_sigma (before after : str) : N :=
  let final_sigma :=
    match skip_while Unicode.is_case_ignorable before with
    | [] => false
    | c :: _ =>
        Unicode.is_cased c &&
        match skip_while Unicode.is_case_ignorable after with
        | [] => true
        | c' :: _ => negb (Unicode.is_cased c')
        end
    end in
  if final_sigma then 0x3C2 else 0x3C3.

Definition lower_ucs4 (before : str) (c : N) (after : str) : str :=
  if c =? 0x3A3 then [handle_capital_sigma before after]
  else Unicode.to_lower_full c.

Fixpoint do_lower (before s : str) : str :=
  match s with
  | [] => []
  | c :: after => lower_ucs4 before c after ++ do_lower (c :: before) after
  end.

(** [s.lower()] *)
Definition lower (s : str) : str := do_lower [] s.

(** [s.strip()] *)
Definition lstrip (s : str) : str := skip_while Unicode.is_space s.
Definition rstrip (s : str) : str :=
  reverse (skip_while Unicode.is_space (reverse s)).
Definition strip (s : str) : str := rstrip (lstrip s).

(** [s.replace(old, new)]: the occurrences of [old] are found from left
    to right and do not overlap.  [skip] counts the code points of a
    match that are still to be passed over.  An empty [old] matches
    before every code point and at the end. *)
Fixpoint replace_from (old new : str) (skip : nat) (s : str) : str :=
  match s with
  | [] => []
  | c :: s' =>
      match skip with
      | S k => replace_from old new k s'
      | O =>
          if bool_decide (take (length old) s = old)
          then new ++ replace_from old new (length old - 1) s'
          else c :: replace_from old new 0 s'
      end
  end.

Definition replace (old new s : str) : str :=
  match old with
  | [] => new ++ flat_map (fun c => c :: new) s
  | _ => replace_from old new 0 s
  end.

(** ** The regular-form generators *)

(** The group is one of the strings ["ARE"], ["ERE"], ["IRE"], ["OTHER"]. *)
Definition get_verb_root (infinitive : str) : str * str :=
  if endswith infinitive (py "are") then (drop_last 3 infinitive, py "ARE")
  else if endswith infinitive (py "ere") then (drop_last 3 infinitive, py "ERE")
  else if endswith infinitive (py "ire") then (drop_last 3 infinitive, py "IRE")
  else (infinitive, py "OTHER").

Definition get_regular_presente (root group : str) : list str :=
  if bool_decide (group = py "ARE") then
    [root ++ py "o"; root ++ py "i"; root ++ py "a";
     root ++ py "iamo"; root ++ py "ate"; root ++ py "ano"]
  else if bool_decide (group = py "ERE") then
    [root ++ py "o"; root ++ py "i"; root ++ py "e";
     root ++ py "iamo"; root ++ py "ete"; root ++ py "ono"]
  else if bool_decide (group = py "IRE") then
    [root ++ py "o"; root ++ py "i"; root ++ py "e";
     root ++ py "iamo"; root ++ py "ite"; root ++ py "ono"]
  else [].

Definition get_regular_imperfetto (root group : str) : list str :=
  if bool_decide (group = py "ARE") then
    [root ++ py "avo"; root ++ py "avi"; root ++ py "ava";
     root ++ py "avamo"; root ++ py "avate"; root ++ py "avano"]
  else if bool_decide (group = py "ERE") then
    [root ++ py "evo"; root ++ py "evi"; root ++ py "eva";
     root ++ py "evamo"; root ++ py "evate"; root ++ py "evano"]
  else if bool_decide (group = py "IRE") then
    [root ++ py "ivo"; root ++ py "ivi"; root ++ py "iva";
     root ++ py "ivamo"; root ++ py "ivate"; root ++ py "ivano"]
  else [].

Definition get_regular_futuro (infinitive : str) : list str :=
  let stem :=
    if endswith infinitive (py "are") then drop_last 3 infinitive ++ py "er"
    else drop_last 1 infinitive in
  [stem ++ py "√≤"; stem ++ py "ai"; stem ++ py "√†";
   stem ++ py "emo"; stem ++ py "ete"; stem ++ py "anno"].

Definition get_regular_passato_remoto (root group : str) : list str :=
  if bool_decide (group = py "ARE") then
    [root ++ py "ai"; root ++ py "asti"; root ++ py "√≤";
     root ++ py "ammo"; root ++ py "aste"; root ++ py "arono"]
  else if bool_decide (group = py "ERE") then
    [root ++ py "ei"; root ++ py "esti"; root ++ py "√©";
     root ++ py "emmo"; root ++ py "este"; root ++ py "erono"]
  else if bool_decide (group = py "IRE") then
    [root ++ py "ii"; root ++ py "isti"; root ++ py "√¨";
     root ++ py "immo"; root ++ py "iste"; root ++ py "irono"]
  else [].

(** ** The normaliser *)

(** The [replacements] dictionary, in insertion order, which is the order
    [items()] visits it in. *)
Definition replacements : list (str * str) :=
  [(py "√†", py "a"); (py "√®", py "e"); (py "√©", py "e");
   (py "√¨", py "i"); (py "√≤", py "o"); (py "√π", py "u")].

Definition normalize_conjugation (conj : str) : str :=
  foldl (fun result kv => replace kv.1 kv.2 result)
        (strip (lower conj)) replacements.

(** ** The mismatch report *)

Inductive exn : Type := IndexError | KeyError.

Inductive result (A : Type) : Type :=
| Ok (a : A)
| Raise (e : exn).
Arguments Ok {A} a.
Arguments Raise {A} e.

#[export] Instance result_ret : MRet result := @Ok.

#[export] Instance result_bind : MBind result := λ A B k m,
  match m with
  | Ok a => k a
  | Raise e => Raise e
  end.

(** [l[i]] for [i >= 0] *)
Definition getitem {A : Type} (l : list A) (i : nat) : result A :=
  match l !! i with
  | Some x => Ok x
  | None => Raise IndexError
  end.

(** [d[k]] *)
Definition dict_getitem {V : Type} (d : gmap str V) (k : str) : result V :=
  match d !! k with
  | Some v => Ok v
  | None => Raise KeyError
  end.

(** One report entry: the dictionary with the keys ["mismatches"],
    ["actual"] and ["expected"]. *)
Record entry : Type := Entry {
  mismatches : nat;
  actual : list str;
  expected : list str
}.

(** [sum(1 for i in indices if normalize_conjugation(actual[i]) !=
    normalize_conjugation(regular[i]))] *)
Fixpoint count_mismatches (indices : list nat) (actual regular : list str)
  : result nat :=
  match indices with
  | [] => Ok 0%nat
  | i :: indices' =>
      a ← getitem actual i;
      r ← getitem regular i;
      n ← count_mismatches indices' actual regular;
      Ok (if bool_decide (normalize_conjugation a ≠ normalize_conjugation r)
          then S n else n)
  end.

(** The block the source repeats for each tense: [regular] is what the
    tense's generator returned. *)
Definition check_tense (tense : str) (regular : list str)
    (actual_conjugations : gmap str (list str))
    (irregularities : gmap str entry) : result (gmap str entry) :=
  if bool_decide (is_Some (actual_conjugations !! tense)) then
    actual ← dict_getitem actual_conjugations tense;
    if bool_decide (6 ≤ length actual)%nat && bool_decide (length regular = 6%nat)
    then
      mismatches ← count_mismatches (seq 0 6) actual regular;
      if bool_decide (0 < mismatches)%nat
      then Ok (<[tense := Entry mismatches actual regular]> irregularities)
      else Ok irregularities
    else Ok irregularities
  else Ok irregularities.

Definition compare_with_regular (infinitive : str)
    (actual_conjugations : gmap str (list str)) : result (gmap str entry) :=
  let '(root, group) := get_verb_root infinitive in
  let irregularities : gmap str entry := ∅ in
  irregularities ← check_tense (py "presente")
    (get_regular_presente root group) actual_conjugations irregularities;
  irregularities ← check_tense (py "imperfetto")
    (get_regular_imperfetto root group) actual_conjugations irregularities;
  irregularities ← check_tense (py "futuro")
    (get_regular_futuro infinitive) actual_conjugations irregularities;
  irregularities ← check_tense (py "passato_remoto")
    (get_regular_passato_remoto root group) actual_conjugations irregularities;
  Ok irregularities.

(** ** Notions used by the statements and the proofs *)

(** A code point is stable when lower-casing leaves it alone, whatever
    surrounds it. *)
Definition stable (c : N) : Prop :=
  c ≠ 0x3A3 ∧ Unicode.to_lower_full c = [c].

Definition stableb (c : N) : bool :=
  negb (c =? 0x3A3) && bool_decide (Unicode.to_lower_full c = [c]).

(** A string is clean at an end when no white space stands there. *)
Definition clean_at (end_ : option N) : Prop :=
  match end_ with
  | Some c => Unicode.is_space c = false
  | None => True
  end.

Definition starts_clean (s : str) : Prop := clean_at (head s).
Definition ends_clean (s : str) : Prop := clean_at (last s).

(** [no_pair p q s]: nowhere in [s] is [p] directly followed by [q]. *)
Fixpoint no_pair (p q : N) (s : str) : Prop :=
  match s with
  | [] => True
  | c :: s' => ¬ (c = p ∧ head s' = Some q) ∧ no_pair p q s'
  end.

(** What a normalised form looks like: lower-case throughout, no white
    space at either end, and none of the six patterns left. *)
Record normal (s : str) : Prop := {
  normal_stable : Forall stable s;
  normal_starts : starts_clean s;
  normal_ends : ends_clean s;
  normal_a : no_pair 0x221A 0x2020 s;
  normal_e_grave : no_pair 0x221A 0xAE s;
  normal_e_acute : no_pair 0x221A 0xA9 s;
  normal_i : no_pair 0x221A 0xA8 s;
  normal_o : no_pair 0x221A 0x2264 s;
  normal_u : no_pair 0x221A 0x3C0 s
}.

(** The canonical forms [compare_with_regular] generates for a tense;
    [None] for a name that is none of the four tenses it checks. *)
Definition canonical (infinitive tense : str) : option (list str) :=
  let '(root, group) := get_verb_root infinitive in
  if bool_decide (tense = py "presente") then
    Some (get_regular_presente root group)
  else if bool_decide (tense = py "imperfetto") then
    Some (get_regular_imperfetto root group)
  else if bool_decide (tense = py "futuro") then
    Some (get_regular_futuro infinitive)
  else if bool_decide (tense = py "passato_remoto") then
    Some (get_regular_passato_remoto root group)
  else None.

(** Position [i] differs when the normalised observed form there is not
    the normalised canonical form. *)
Definition differs (observed regular : list str) (i : nat) : Prop :=
  normalize_conjugation <$> observed !! i
  ≠ normalize_conjugation <$> regular !! i.

(** The positions among the first six that differ. *)
Definition differing_positions (observed regular : list str) : list nat :=
  filter (differs observed regular) (seq 0 6).

(** The report entry of a tense as the specification words it: none
    unless the tense is observed with at least six forms, six canonical
    forms exist and some position differs; otherwise the number of
    differing positions with both sequences in full. *)
Definition spec_entry (observed : option (list str)) (regular : list str)
  : option entry :=
  match observed with
  | Some actual =>
      if bool_decide (6 ≤ length actual)%nat
         && bool_decide (length regular = 6%nat)
         && bool_decide (differing_positions actual regular ≠ [])
      then Some (Entry (length (differing_positions actual regular))
                       actual regular)
      else None
  | None => None
  end.

(** Storing an entry when there is one. *)
Definition put (tense : str) (e : option entry) (report : gmap str entry)
  : gmap str entry :=
  match e with
  | Some e => <[tense := e]> report
  | None => report
  end.

(** The observed presente of "andare", and what the generator makes of
    the verb. *)
Definition andare_presente : list str :=
  [py "vado"; py "vai"; py "va"; py "andiamo"; py "andate"; py "vanno"].

Definition andare_regular : list str :=
  [py "ando"; py "andi"; py "anda"; py "andiamo"; py "andate"; py "andano"].

Definition andare_entry : entry := Entry 4 andare_presente andare_regular.

Definition andare_observed : gmap str (list str) :=
  {[ py "presente" := andare_presente ]}.

Definition andare_report : gmap str entry :=
  {[ py "presente" := andare_entry ]}.

(** * Properties *)

(** ** Literals *)

(** Replace every literal of the goal by its code points. *)
Ltac eval_py :=
  repeat match goal with
         | |- context [py ?lit] =>
             let v := eval vm_compute in (py lit) in
             change (py lit) with v
         end.

(** The accented endings of the source are each two code points, a
    square-root sign followed by a second symbol; the accented vowels
    are one code point each. *)
Example literal_endings :
  py "√†" = [0x221A; 0x2020] ∧ py "√®" = [0x221A; 0xAE] ∧
  py "√©" = [0x221A; 0xA9] ∧ py "√¨" = [0x221A; 0xA8] ∧
  py "√≤" = [0x221A; 0x2264] ∧ py "√π" = [0x221A; 0x3C0].
Proof. repeat split; reflexivity. Qed.

Example literal_vowels :
  py "àèéìòù" = [0xE0; 0xE8; 0xE9; 0xEC; 0xF2; 0xF9].
Proof. reflexivity. Qed.

(** ** Slices and suffixes *)

Lemma endswith_spec (s suffix : str) :
  endswith s suffix = true ↔ suffix `suffix_of` s.
Proof.
  unfold endswith. rewrite bool_decide_eq_true. split.
  - intros Hd. exists (take (length s - length suffix) s).
    transitivity (take (length s - length suffix) s ++
                  drop (length s - length suffix) s).
    + symmetry. apply take_drop.
    + by rewrite Hd.
  - intros [k ->]. rewrite length_app.
    replace (length k + length suffix - length suffix)%nat with (length k) by lia.
    apply drop_app_length.
Qed.

Lemma endswith_app (root suffix : str) : endswith (root ++ suffix) suffix = true.
Proof. apply endswith_spec. by exists root. Qed.

Lemma endswith_false (s suffix : str) :
  ¬ suffix `suffix_of` s → endswith s suffix = false.
Proof.
  intros Hn. destruct (endswith s suffix) eqn:E; [|done].
  by apply endswith_spec in E.
Qed.

Lemma drop_last_app (root suffix : str) (k : nat) :
  length suffix = k → drop_last k (root ++ suffix) = root.
Proof.
  intros <-. unfold drop_last. rewrite length_app.
  replace (length root + length suffix - length suffix)%nat with (length root) by lia.
  apply take_app_length.
Qed.

(** Two suffixes of the same length of one string are equal. *)
Lemma suffix_same_length (s1 s2 r1 r2 : str) :
  r1 ++ s1 = r2 ++ s2 → length s1 = length s2 → s1 = s2.
Proof.
  intros He Hl.
  assert (length r1 = length r2) as Hr.
  { apply (f_equal length) in He. rewrite !length_app in He. lia. }
  by apply app_inj_1 in He as [_ ?].
Qed.

(** ** [get_verb_root] *)

Lemma get_verb_root_are (root : str) :
  get_verb_root (root ++ py "are") = (root, py "ARE").
Proof.
  unfold get_verb_root. rewrite endswith_app.
  by rewrite (drop_last_app root (py "are")).
Qed.

Lemma get_verb_root_ere (root : str) :
  get_verb_root (root ++ py "ere") = (root, py "ERE").
Proof.
  unfold get_verb_root. rewrite endswith_app.
  rewrite endswith_false.
  - by rewrite (drop_last_app root (py "ere")).
  - intros [k Hk]. by apply suffix_same_length in Hk.
Qed.

Lemma get_verb_root_ire (root : str) :
  get_verb_root (root ++ py "ire") = (root, py "IRE").
Proof.
  unfold get_verb_root. rewrite endswith_app.
  rewrite !endswith_false.
  - by rewrite (drop_last_app root (py "ire")).
  - intros [k Hk]. by apply suffix_same_length in Hk.
  - intros [k Hk]. by apply suffix_same_length in Hk.
Qed.

Lemma get_verb_root_other (infinitive : str) :
  ¬ py "are" `suffix_of` infinitive →
  ¬ py "ere" `suffix_of` infinitive →
  ¬ py "ire" `suffix_of` infinitive →
  get_verb_root infinitive = (infinitive, py "OTHER").
Proof.
  intros Ha He Hi. unfold get_verb_root. by rewrite !endswith_false.
Qed.

(** C6: an infinitive [root ++ "are"], [root ++ "ere"] or [root ++ "ire"]
    is split into that [root] and the group ARE, ERE or IRE of its
    suffix; every other infinitive is returned whole with the group
    OTHER. *)
Theorem get_verb_root_spec (infinitive : str) :
  (∀ root, infinitive = root ++ py "are" →
     get_verb_root infinitive = (root, py "ARE")) ∧
  (∀ root, infinitive = root ++ py "ere" →
     get_verb_root infinitive = (root, py "ERE")) ∧
  (∀ root, infinitive = root ++ py "ire" →
     get_verb_root infinitive = (root, py "IRE")) ∧
  (¬ py "are" `suffix_of` infinitive →
   ¬ py "ere" `suffix_of` infinitive →
   ¬ py "ire" `suffix_of` infinitive →
     get_verb_root infinitive = (infinitive, py "OTHER")).
Proof.
  split_and!.
  - intros root ->. apply get_verb_root_are.
  - intros root ->. apply get_verb_root_ere.
  - intros root ->. apply get_verb_root_ire.
  - apply get_verb_root_other.
Qed.

(** ** The generators *)

Lemma group_cases (group : str) :
  group ∈ [py "ARE"; py "ERE"; py "IRE"] →
  group = py "ARE" ∨ group = py "ERE" ∨ group = py "IRE".
Proof. rewrite !elem_of_cons, elem_of_nil. tauto. Qed.

Lemma prefixed_forms (root : str) (endings : list str) :
  Forall (λ ending, ending ≠ []) endings →
  Forall (λ form, form ≠ [] ∧ root `prefix_of` form) ((root ++.) <$> endings).
Proof.
  intros Hne. apply Forall_fmap. eapply Forall_impl; [exact Hne|].
  intros ending He. split.
  - intros [_ ?]%app_eq_nil. done.
  - by exists ending.
Qed.

Lemma get_regular_presente_endings (root : str) :
  get_regular_presente root (py "ARE")
    = (root ++.) <$> [py "o"; py "i"; py "a"; py "iamo"; py "ate"; py "ano"] ∧
  get_regular_presente root (py "ERE")
    = (root ++.) <$> [py "o"; py "i"; py "e"; py "iamo"; py "ete"; py "ono"] ∧
  get_regular_presente root (py "IRE")
    = (root ++.) <$> [py "o"; py "i"; py "e"; py "iamo"; py "ite"; py "ono"].
Proof. done. Qed.

Lemma get_regular_imperfetto_endings (root : str) :
  get_regular_imperfetto root (py "ARE")
    = (root ++.) <$> [py "avo"; py "avi"; py "ava";
                      py "avamo"; py "avate"; py "avano"] ∧
  get_regular_imperfetto root (py "ERE")
    = (root ++.) <$> [py "evo"; py "evi"; py "eva";
                      py "evamo"; py "evate"; py "evano"] ∧
  get_regular_imperfetto root (py "IRE")
    = (root ++.) <$> [py "ivo"; py "ivi"; py "iva";
                      py "ivamo"; py "ivate"; py "ivano"].
Proof. done. Qed.

(** What the source writes as the accented endings of the passato
    remoto. *)
Lemma get_regular_passato_remoto_endings (root : str) :
  get_regular_passato_remoto root (py "ARE")
    = (root ++.) <$> [py "ai"; py "asti"; py "√≤";
                      py "ammo"; py "aste"; py "arono"] ∧
  get_regular_passato_remoto root (py "ERE")
    = (root ++.) <$> [py "ei"; py "esti"; py "√©";
                      py "emmo"; py "este"; py "erono"] ∧
  get_regular_passato_remoto root (py "IRE")
    = (root ++.) <$> [py "ii"; py "isti"; py "√¨";
                      py "immo"; py "iste"; py "irono"].
Proof. done. Qed.

(** For a group that is none of ARE, ERE and IRE, in particular for
    OTHER, the three generators that work from the root return the empty
    list. *)
Lemma generators_other (root group : str) :
  group ≠ py "ARE" → group ≠ py "ERE" → group ≠ py "IRE" →
  get_regular_presente root group = [] ∧
  get_regular_imperfetto root group = [] ∧
  get_regular_passato_remoto root group = [].
Proof.
  intros Ha He Hi.
  unfold get_regular_presente, get_regular_imperfetto, get_regular_passato_remoto.
  by rewrite !bool_decide_eq_false_2.
Qed.

Lemma get_regular_futuro_length (infinitive : str) :
  length (get_regular_futuro infinitive) = 6%nat.
Proof. done. Qed.

(** The generators return six forms or none. *)
Lemma get_regular_presente_length (root group : str) :
  length (get_regular_presente root group) = 6%nat ∨
  get_regular_presente root group = [].
Proof. unfold get_regular_presente. repeat case_bool_decide; auto. Qed.

Lemma get_regular_imperfetto_length (root group : str) :
  length (get_regular_imperfetto root group) = 6%nat ∨
  get_regular_imperfetto root group = [].
Proof. unfold get_regular_imperfetto. repeat case_bool_decide; auto. Qed.

Lemma get_regular_passato_remoto_length (root group : str) :
  length (get_regular_passato_remoto root group) = 6%nat ∨
  get_regular_passato_remoto root group = [].
Proof. unfold get_regular_passato_remoto. repeat case_bool_decide; auto. Qed.

(** C4: for the groups ARE, ERE and IRE the presente and the imperfetto
    are the root followed by the six fixed endings of the group: six
    non-empty forms, each with the root as a prefix. *)
Theorem presente_imperfetto_spec (root : str) :
  get_regular_presente root (py "ARE")
    = (root ++.) <$> [py "o"; py "i"; py "a"; py "iamo"; py "ate"; py "ano"] ∧
  get_regular_presente root (py "ERE")
    = (root ++.) <$> [py "o"; py "i"; py "e"; py "iamo"; py "ete"; py "ono"] ∧
  get_regular_presente root (py "IRE")
    = (root ++.) <$> [py "o"; py "i"; py "e"; py "iamo"; py "ite"; py "ono"] ∧
  get_regular_imperfetto root (py "ARE")
    = (root ++.) <$> [py "avo"; py "avi"; py "ava";
                      py "avamo"; py "avate"; py "avano"] ∧
  get_regular_imperfetto root (py "ERE")
    = (root ++.) <$> [py "evo"; py "evi"; py "eva";
                      py "evamo"; py "evate"; py "evano"] ∧
  get_regular_imperfetto root (py "IRE")
    = (root ++.) <$> [py "ivo"; py "ivi"; py "iva";
                      py "ivamo"; py "ivate"; py "ivano"] ∧
  ∀ group forms,
    group ∈ [py "ARE"; py "ERE"; py "IRE"] →
    forms ∈ [get_regular_presente root group;
             get_regular_imperfetto root group] →
    length forms = 6%nat ∧
    Forall (λ form, form ≠ [] ∧ root `prefix_of` form) forms.
Proof.
  split_and!; try done.
  intros group forms Hg Hf.
  assert (forms = get_regular_presente root group ∨
          forms = get_regular_imperfetto root group) as Hforms.
  { revert Hf. rewrite !elem_of_cons, elem_of_nil. tauto. }
  apply group_cases in Hg.
  destruct Hg as [-> | [-> | ->]], Hforms as [-> | ->];
    (split; [done|]);
    first [ rewrite (proj1 (get_regular_presente_endings root))
          | rewrite (proj1 (proj2 (get_regular_presente_endings root)))
          | rewrite (proj2 (proj2 (get_regular_presente_endings root)))
          | rewrite (proj1 (get_regular_imperfetto_endings root))
          | rewrite (proj1 (proj2 (get_regular_imperfetto_endings root)))
          | rewrite (proj2 (proj2 (get_regular_imperfetto_endings root))) ];
    apply prefixed_forms; repeat constructor; done.
Qed.

Lemma presente_imperfetto_spec_witness :
  length (get_regular_imperfetto (py "parl") (py "ARE")) = 6%nat ∧
  Forall (λ form, form ≠ [] ∧ py "parl" `prefix_of` form)
         (get_regular_imperfetto (py "parl") (py "ARE")).
Proof.
  destruct (presente_imperfetto_spec (py "parl")) as (_ & _ & _ & _ & _ & _ & H).
  apply (H (py "ARE")).
  - apply list_elem_of_here.
  - apply list_elem_of_further, list_elem_of_here.
Defined.

(** ** [lower] *)

Lemma stableb_spec (c : N) : stableb c = true ↔ stable c.
Proof.
  unfold stableb, stable.
  rewrite andb_true_iff, negb_true_iff, N.eqb_neq, bool_decide_eq_true. done.
Qed.

Lemma assoc_Some_In (c d : N) (table : list (N * N)) :
  Unicode.assoc c table = Some d → In (c, d) table.
Proof.
  induction table as [|[k v] table IH]; simpl; [done|].
  destruct (k =? c) eqn:E.
  - apply N.eqb_eq in E as ->. intros [= ->]. by left.
  - intros H. right. by apply IH.
Qed.

(** The targets of the lower-case table are lower-case themselves. *)
Lemma lower_table_targets_stable (c d : N) :
  Unicode.assoc c Unicode.lower_table = Some d → stable d.
Proof.
  intros H%assoc_Some_In.
  assert (forallb (λ kv, stableb kv.2) Unicode.lower_table = true) as Hall
    by (vm_compute; reflexivity).
  rewrite forallb_forall in Hall.
  apply stableb_spec. exact (Hall _ H).
Qed.

Lemma lower_ucs4_stable (before : str) (c : N) (after : str) :
  Forall stable (lower_ucs4 before c after).
Proof.
  unfold lower_ucs4. destruct (c =? 0x3A3) eqn:Hsigma.
  - apply Forall_singleton, stableb_spec.
    unfold handle_capital_sigma.
    by match goal with |- context [if ?b then _ else _] => destruct b end.
  - apply N.eqb_neq in Hsigma.
    unfold Unicode.to_lower_full. destruct (c =? 0x130) eqn:Hdot.
    + repeat constructor; by apply stableb_spec.
    + destruct (Unicode.assoc c Unicode.lower_table) as [d|] eqn:Hd.
      * apply Forall_singleton. by eapply lower_table_targets_stable.
      * apply Forall_singleton. split; [done|].
        unfold Unicode.to_lower_full. by rewrite Hdot, Hd.
Qed.

Lemma do_lower_stable (before s : str) : Forall stable (do_lower before s).
Proof.
  revert before. induction s as [|c after IH]; intros before; simpl.
  - constructor.
  - apply Forall_app. split; [apply lower_ucs4_stable | apply IH].
Qed.

Lemma lower_stable (s : str) : Forall stable (lower s).
Proof. apply do_lower_stable. Qed.

Lemma do_lower_fixed (before s : str) :
  Forall stable s → do_lower before s = s.
Proof.
  intros Hs. revert before.
  induction Hs as [|c after [Hc1 Hc2] _ IH]; intros before; simpl; [done|].
  unfold lower_ucs4. apply N.eqb_neq in Hc1. rewrite Hc1, Hc2. simpl.
  by rewrite IH.
Qed.

(** Lower-casing a string of stable code points changes nothing. *)
Lemma lower_fixed (s : str) : Forall stable s → lower s = s.
Proof. apply do_lower_fixed. Qed.

(** ** [strip] *)

Lemma skip_while_Forall (P : N → Prop) (p : N → bool) (s : str) :
  Forall P s → Forall P (skip_while p s).
Proof.
  induction 1 as [|c s Hc Hs IH]; simpl; [constructor|].
  destruct (p c); [done | by constructor].
Qed.

Lemma skip_while_fixed (s : str) :
  starts_clean s → skip_while Unicode.is_space s = s.
Proof.
  destruct s as [|c s]; unfold starts_clean; simpl; [done|]. by intros ->.
Qed.

Lemma skip_while_clean (s : str) :
  starts_clean (skip_while Unicode.is_space s).
Proof.
  induction s as [|c s IH]; simpl; [done|].
  by destruct (Unicode.is_space c) eqn:E.
Qed.

Lemma skip_while_snoc (s : str) (c : N) :
  Unicode.is_space c = false →
  skip_while Unicode.is_space (s ++ [c]) = skip_while Unicode.is_space s ++ [c].
Proof.
  intros Hc. induction s as [|d s IH]; simpl.
  - by rewrite Hc.
  - by destruct (Unicode.is_space d).
Qed.

Lemma lstrip_fixed (s : str) : starts_clean s → lstrip s = s.
Proof. apply skip_while_fixed. Qed.

Lemma rstrip_fixed (s : str) : ends_clean s → rstrip s = s.
Proof.
  intros H. unfold rstrip. rewrite skip_while_fixed.
  - apply reverse_involutive.
  - unfold starts_clean. by rewrite head_reverse.
Qed.

Lemma strip_fixed (s : str) : starts_clean s → ends_clean s → strip s = s.
Proof.
  intros Hs He. unfold strip. rewrite lstrip_fixed by done.
  by apply rstrip_fixed.
Qed.

Lemma rstrip_cons (c : N) (s : str) :
  Unicode.is_space c = false → rstrip (c :: s) = c :: rstrip s.
Proof.
  intros Hc. unfold rstrip. rewrite reverse_cons, skip_while_snoc by done.
  by rewrite reverse_snoc.
Qed.

Lemma strip_starts_clean (s : str) : starts_clean (strip s).
Proof.
  unfold strip. pose proof (skip_while_clean s) as H. fold (lstrip s) in H.
  destruct (lstrip s) as [|c t]; [done|].
  unfold starts_clean in H. simpl in H. by rewrite rstrip_cons.
Qed.

Lemma strip_ends_clean (s : str) : ends_clean (strip s).
Proof.
  unfold ends_clean, strip, rstrip. rewrite last_reverse.
  apply skip_while_clean.
Qed.

Lemma strip_Forall (P : N → Prop) (s : str) : Forall P s → Forall P (strip s).
Proof.
  intros H. unfold strip, rstrip, lstrip.
  apply Forall_reverse, skip_while_Forall, Forall_reverse.
  by apply skip_while_Forall.
Qed.

(** ** [replace] with a pattern of two code points

    Every key of [replacements] has two code points and every value
    one. *)

Section replace2.
Variables a b v : N.

Let R : str → str := replace [a; b] [v].

Lemma replace2_nil : R [] = [].
Proof. done. Qed.

Lemma replace2_single (c : N) : R [c] = [c].
Proof.
  unfold R, replace, replace_from. by rewrite bool_decide_eq_false_2.
Qed.

Lemma replace2_match (s : str) : R (a :: b :: s) = v :: R s.
Proof.
  unfold R, replace. simpl. rewrite bool_decide_eq_true_2 by done.
  by destruct s.
Qed.

Lemma replace2_skip (c d : N) (s : str) :
  ¬ (c = a ∧ d = b) → R (c :: d :: s) = c :: R (d :: s).
Proof.
  intros Hne. unfold R, replace. simpl.
  rewrite bool_decide_eq_false_2; [done|].
  intros [= -> ->]. by apply Hne.
Qed.

(** Induction that follows the two ways [replace] advances. *)
Lemma replace2_ind (P : str → Prop) :
  P [] →
  (∀ c, P [c]) →
  (∀ s, P s → P (a :: b :: s)) →
  (∀ c d s, ¬ (c = a ∧ d = b) → P (d :: s) → P (c :: d :: s)) →
  ∀ s, P s.
Proof.
  intros Hnil Hone Hmatch Hskip s.
  assert (P s ∧ ∀ c, P (c :: s)) as [H _]; [|exact H].
  induction s as [|d s [IH1 IH2]]; [by split|].
  split; [apply IH2|]. intros c.
  destruct (decide (c = a ∧ d = b)) as [[-> ->]|Hne].
  - by apply Hmatch.
  - by apply Hskip.
Qed.

Lemma replace2_head (c : N) (s : str) :
  head (R (c :: s)) = Some v ∨ head (R (c :: s)) = Some c.
Proof.
  destruct s as [|d s].
  - right. by rewrite replace2_single.
  - destruct (decide (c = a ∧ d = b)) as [[-> ->]|Hne].
    + left. by rewrite replace2_match.
    + right. by rewrite replace2_skip.
Qed.

Lemma replace2_last (s : str) :
  last (R s) = Some v ∨ last (R s) = last s.
Proof.
  induction s as [| c | s IH | c d s Hne IH] using replace2_ind.
  - by right.
  - right. by rewrite replace2_single.
  - rewrite replace2_match, !last_cons.
    destruct IH as [-> | ->]; [by left|].
    destruct (last s); [by right | by left].
  - rewrite replace2_skip by done.
    rewrite (last_cons c (R (d :: s))), (last_cons c (d :: s)).
    destruct IH as [-> | ->]; [by left|].
    right. rewrite last_cons. by destruct (last s).
Qed.

Lemma replace2_Forall (P : N → Prop) (s : str) :
  P v → Forall P s → Forall P (R s).
Proof.
  intros Hv.
  induction s as [| c | s IH | c d s Hne IH] using replace2_ind; intros Hs.
  - done.
  - by rewrite replace2_single.
  - rewrite replace2_match. constructor; [done|].
    apply IH. by do 2 apply Forall_cons_1 in Hs as [_ Hs].
  - rewrite replace2_skip by done.
    apply Forall_cons_1 in Hs as [Hc Hs]. constructor; [done | by apply IH].
Qed.

Lemma replace2_starts_clean (s : str) :
  Unicode.is_space v = false → starts_clean s → starts_clean (R s).
Proof.
  intros Hv. destruct s as [|c s]; [done|].
  unfold starts_clean. by destruct (replace2_head c s) as [-> | ->].
Qed.

Lemma replace2_ends_clean (s : str) :
  Unicode.is_space v = false → ends_clean s → ends_clean (R s).
Proof.
  intros Hv. unfold ends_clean. by destruct (replace2_last s) as [-> | ->].
Qed.

(** Replacing one pair does not bring another pair about, as long as
    the code point written is in neither. *)
Lemma replace2_no_pair (p q : N) (s : str) :
  v ≠ p → v ≠ q → no_pair p q s → no_pair p q (R s).
Proof.
  intros Hp Hq.
  induction s as [| c | s IH | c d s Hne IH] using replace2_ind; intros Hs.
  - done.
  - by rewrite replace2_single.
  - rewrite replace2_match. split; [by intros [? _]|].
    apply IH. by destruct Hs as [_ [_ Hs]].
  - rewrite replace2_skip by done. destruct Hs as [Hcd Hs]. split.
    + intros [-> Hh].
      destruct (replace2_head d s) as [Hv | Hd]; rewrite ?Hv, ?Hd in Hh;
        injection Hh as ->; [done|].
      by apply Hcd.
    + by apply IH.
Qed.

(** After the replacement the pattern is gone. *)
Lemma replace2_gone (s : str) : v ≠ a → v ≠ b → no_pair a b (R s).
Proof.
  intros Ha Hb.
  induction s as [| c | s IH | c d s Hne IH] using replace2_ind.
  - done.
  - rewrite replace2_single. split; [by intros [_ ?] | done].
  - rewrite replace2_match. split; [by intros [? _] | done].
  - rewrite replace2_skip by done. split; [|done].
    intros [-> Hh].
    destruct (replace2_head d s) as [Hv | Hd]; rewrite ?Hv, ?Hd in Hh;
      injection Hh as ->; [done|].
    by apply Hne.
Qed.

(** Without the pattern there is nothing to replace. *)
Lemma replace2_fixed (s : str) : no_pair a b s → R s = s.
Proof.
  induction s as [| c | s IH | c d s Hne IH] using replace2_ind; intros Hs.
  - done.
  - by rewrite replace2_single.
  - destruct Hs as [Hs _]. by destruct Hs.
  - rewrite replace2_skip by done. destruct Hs as [_ Hs]. by rewrite IH.
Qed.
End replace2.

(** ** [normalize_conjugation] *)

(** The loop over [replacements], unrolled. *)
Lemma normalize_conjugation_unfold (conj : str) :
  normalize_conjugation conj
  = replace (py "√π") (py "u")
      (replace (py "√≤") (py "o")
        (replace (py "√¨") (py "i")
          (replace (py "√©") (py "e")
            (replace (py "√®") (py "e")
              (replace (py "√†") (py "a") (strip (lower conj))))))).
Proof. done. Qed.

Lemma normalize_conjugation_normal (conj : str) :
  normal (normalize_conjugation conj).
Proof.
  rewrite normalize_conjugation_unfold. eval_py.
  split.
  - repeat (apply replace2_Forall; [by apply stableb_spec|]).
    apply strip_Forall, lower_stable.
  - repeat (apply replace2_starts_clean; [done|]). apply strip_starts_clean.
  - repeat (apply replace2_ends_clean; [done|]). apply strip_ends_clean.
  - do 5 (apply replace2_no_pair; [done | done |]). by apply replace2_gone.
  - do 4 (apply replace2_no_pair; [done | done |]). by apply replace2_gone.
  - do 3 (apply replace2_no_pair; [done | done |]). by apply replace2_gone.
  - do 2 (apply replace2_no_pair; [done | done |]). by apply replace2_gone.
  - do 1 (apply replace2_no_pair; [done | done |]). by apply replace2_gone.
  - by apply replace2_gone.
Qed.

Lemma normalize_conjugation_fixed (s : str) :
  normal s → normalize_conjugation s = s.
Proof.
  intros [].
  rewrite normalize_conjugation_unfold. eval_py.
  rewrite lower_fixed, strip_fixed by done.
  rewrite (replace2_fixed 0x221A 0x2020) by done.
  rewrite (replace2_fixed 0x221A 0xAE) by done.
  rewrite (replace2_fixed 0x221A 0xA9) by done.
  rewrite (replace2_fixed 0x221A 0xA8) by done.
  rewrite (replace2_fixed 0x221A 0x2264) by done.
  by rewrite (replace2_fixed 0x221A 0x3C0).
Qed.

(** C8: normalising a normalised form changes nothing. *)
Theorem normalize_conjugation_idempotent (s : str) :
  normalize_conjugation (normalize_conjugation s) = normalize_conjugation s.
Proof. apply normalize_conjugation_fixed, normalize_conjugation_normal. Qed.

(** ** The mismatch count *)

Lemma differs_lookup (observed regular : list str) (i : nat) (a r : str) :
  observed !! i = Some a → regular !! i = Some r →
  differs observed regular i ↔ normalize_conjugation a ≠ normalize_conjugation r.
Proof.
  intros Ha Hr. unfold differs. rewrite Ha, Hr. simpl. split.
  - intros H E. apply H. by rewrite E.
  - intros H [= E]. by apply H.
Qed.

(** Inside both sequences no index raises, and the sum is the number of
    indices that differ. *)
Lemma count_mismatches_spec (indices : list nat) (observed regular : list str) :
  Forall (λ i, (i < length observed)%nat ∧ (i < length regular)%nat) indices →
  count_mismatches indices observed regular
  = Ok (length (filter (differs observed regular) indices)).
Proof.
  induction 1 as [|i indices [Ho Hr] _ IH]; [done|].
  apply lookup_lt_is_Some in Ho as [a Ha].
  apply lookup_lt_is_Some in Hr as [r Hr].
  cbn [count_mismatches]. unfold getitem. rewrite Ha, Hr.
  cbn [mbind result_bind]. rewrite IH. cbn [mbind result_bind].
  rewrite filter_cons. f_equal.
  case_bool_decide as Hne; case_decide as Hd; try done.
  - by apply (differs_lookup _ _ _ _ _ Ha Hr) in Hne.
  - by apply (differs_lookup _ _ _ _ _ Ha Hr) in Hd.
Qed.

Lemma first_six_in_range (observed regular : list str) :
  (6 ≤ length observed)%nat → length regular = 6%nat →
  Forall (λ i, (i < length observed)%nat ∧ (i < length regular)%nat) (seq 0 6).
Proof.
  intros Ho Hr. apply Forall_forall. intros i Hi%elem_of_seq. lia.
Qed.

Lemma filter_agree (P Q : nat → Prop) `{!∀ i, Decision (P i)}
    `{!∀ i, Decision (Q i)} (l : list nat) :
  Forall (λ i, P i ↔ Q i) l → filter P l = filter Q l.
Proof.
  induction 1 as [|i l Hi _ IH]; [done|].
  rewrite !filter_cons, IH. repeat case_decide; tauto.
Qed.

(** The count looks at the first six observed forms only. *)
Lemma differing_positions_take (observed regular : list str) :
  differing_positions observed regular
  = differing_positions (take 6 observed) regular.
Proof.
  unfold differing_positions. apply filter_agree, Forall_forall.
  intros i Hi%elem_of_seq. unfold differs.
  by rewrite lookup_take_lt by lia.
Qed.

Lemma differing_positions_length (observed regular : list str) :
  (length (differing_positions observed regular) ≤ 6)%nat.
Proof.
  unfold differing_positions.
  etransitivity; [apply length_filter|]. by rewrite length_seq.
Qed.

(** ** One tense *)

Lemma check_tense_spec (tense : str) (regular : list str)
    (observed : gmap str (list str)) (report : gmap str entry) :
  check_tense tense regular observed report
  = Ok (put tense (spec_entry (observed !! tense) regular) report).
Proof.
  unfold check_tense, dict_getitem, spec_entry.
  destruct (observed !! tense) as [actual|] eqn:Hobs.
  - rewrite bool_decide_eq_true_2 by eauto. cbn [mbind result_bind].
    destruct (bool_decide (6 ≤ length actual)%nat) eqn:Ho; [|done].
    destruct (bool_decide (length regular = 6%nat)) eqn:Hr; [|done].
    apply bool_decide_eq_true in Ho, Hr. cbn [andb].
    rewrite count_mismatches_spec by by apply first_six_in_range.
    fold (differing_positions actual regular). cbn [mbind result_bind].
    destruct (differing_positions actual regular) as [|i l]; [done|].
    rewrite bool_decide_eq_true_2 by (cbn [length]; lia).
    by rewrite bool_decide_eq_true_2.
  - rewrite bool_decide_eq_false_2; [done|]. by intros [? ?].
Qed.

(** ** The whole report *)

Lemma put_lookup_ne (tense tense' : str) (e : option entry)
    (report : gmap str entry) :
  tense ≠ tense' → put tense e report !! tense' = report !! tense'.
Proof. intros Hne. destruct e; [by apply lookup_insert_ne | done]. Qed.

Lemma put_lookup_eq (tense : str) (e : option entry) (report : gmap str entry) :
  report !! tense = None → put tense e report !! tense = e.
Proof. intros Hnone. destruct e; [by apply lookup_insert_eq | done]. Qed.

(** The four tense names are different strings. *)
Ltac tense_ne := eval_py; done.

(** [compare_with_regular] never raises; it runs the four blocks in
    turn. *)
Lemma compare_with_regular_unfold (infinitive : str)
    (observed : gmap str (list str)) :
  compare_with_regular infinitive observed
  = Ok (put (py "passato_remoto")
          (spec_entry (observed !! py "passato_remoto")
             (get_regular_passato_remoto (get_verb_root infinitive).1
                                         (get_verb_root infinitive).2))
       (put (py "futuro")
          (spec_entry (observed !! py "futuro") (get_regular_futuro infinitive))
       (put (py "imperfetto")
          (spec_entry (observed !! py "imperfetto")
             (get_regular_imperfetto (get_verb_root infinitive).1
                                     (get_verb_root infinitive).2))
       (put (py "presente")
          (spec_entry (observed !! py "presente")
             (get_regular_presente (get_verb_root infinitive).1
                                   (get_verb_root infinitive).2))
          ∅)))).
Proof.
  unfold compare_with_regular.
  destruct (get_verb_root infinitive) as [root group]. cbn [fst snd].
  cbv zeta. by do 4 (rewrite check_tense_spec; cbn [mbind result_bind]).
Qed.

(** The report holds, for each tense, the entry the specification
    describes. *)
Lemma compare_with_regular_lookup (infinitive : str)
    (observed : gmap str (list str)) :
  ∃ report,
    compare_with_regular infinitive observed = Ok report ∧
    ∀ tense,
      report !! tense
      = canonical infinitive tense ≫= spec_entry (observed !! tense).
Proof.
  eexists. split; [apply compare_with_regular_unfold|].
  intros tense. unfold canonical.
  destruct (get_verb_root infinitive) as [root group]. cbn [fst snd].
  case_bool_decide as H1; [subst tense|].
  { do 3 (rewrite put_lookup_ne by tense_ne). by rewrite put_lookup_eq. }
  case_bool_decide as H2; [subst tense|].
  { do 2 (rewrite put_lookup_ne by tense_ne). rewrite put_lookup_eq; [done|].
    by rewrite put_lookup_ne by tense_ne. }
  case_bool_decide as H3; [subst tense|].
  { rewrite put_lookup_ne by tense_ne. rewrite put_lookup_eq; [done|].
    by do 2 (rewrite put_lookup_ne by tense_ne). }
  case_bool_decide as H4; [subst tense|].
  { rewrite put_lookup_eq; [done|].
    by do 3 (rewrite put_lookup_ne by tense_ne). }
  by do 4 (rewrite put_lookup_ne by done).
Qed.

Lemma canonical_is_Some (infinitive tense : str) :
  is_Some (canonical infinitive tense) ↔
  tense ∈ [py "presente"; py "imperfetto"; py "futuro"; py "passato_remoto"].
Proof.
  unfold canonical. destruct (get_verb_root infinitive) as [root group].
  rewrite !elem_of_cons, elem_of_nil.
  repeat case_bool_decide; split; intros Hx; try (by eauto); try tauto.
Qed.

Lemma spec_entry_Some (observed : option (list str)) (regular : list str)
    (e : entry) :
  spec_entry observed regular = Some e ↔
  ∃ actual,
    observed = Some actual ∧
    (6 ≤ length actual)%nat ∧ length regular = 6%nat ∧
    differing_positions actual regular ≠ [] ∧
    e = Entry (length (differing_positions actual regular)) actual regular.
Proof.
  unfold spec_entry. destruct observed as [actual|].
  - repeat case_bool_decide; cbn [andb]; split.
    all: try (intros [= <-]; by eauto 10).
    all: try done.
    all: try (intros (actual' & [= <-] & ? & ? & ? & ->); done).
  - split; [done | by intros (? & ? & _)].
Qed.

(** Some position among the first six differs exactly when two forms
    at one index below six have different normalised keys. *)
Lemma differing_positions_nonempty (observed regular : list str) :
  (6 ≤ length observed)%nat → length regular = 6%nat →
  differing_positions observed regular ≠ [] ↔
  ∃ i a r, (i < 6)%nat ∧ observed !! i = Some a ∧ regular !! i = Some r ∧
           normalize_conjugation a ≠ normalize_conjugation r.
Proof.
  intros Ho Hr. unfold differing_positions. split.
  - intros Hne.
    destruct (filter (differs observed regular) (seq 0 6)) as [|i l] eqn:Hf;
      [done|].
    assert (i ∈ filter (differs observed regular) (seq 0 6)) as Hi
      by (rewrite Hf; left).
    apply list_elem_of_filter in Hi as [Hd Hi%elem_of_seq].
    destruct (lookup_lt_is_Some_2 observed i) as [a Ha]; [lia|].
    destruct (lookup_lt_is_Some_2 regular i) as [r Hreg]; [lia|].
    exists i, a, r. split_and!; [lia | done | done |].
    by apply (differs_lookup _ _ _ _ _ Ha Hreg).
  - intros (i & a & r & Hi & Ha & Hreg & Hne) Hnil.
    assert (i ∈ filter (differs observed regular) (seq 0 6)) as Hin.
    { apply list_elem_of_filter. split.
      - by apply (differs_lookup _ _ _ _ _ Ha Hreg).
      - apply elem_of_seq. lia. }
    rewrite Hnil in Hin. by apply elem_of_nil in Hin.
Qed.

(** C1: the analysis returns a report, and a tense is in it exactly when
    it is one of the four tenses, it is observed with at least six
    forms, its canonical sequence has six forms, and at one of the
    positions 0 to 5 the normalised forms differ.  So a tense observed
    with fewer than six forms, a root-based tense of a verb of group
    OTHER, and a tense whose first six positions all agree are absent. *)
Theorem report_membership (infinitive : str) (observed : gmap str (list str)) :
  ∃ report,
    compare_with_regular infinitive observed = Ok report ∧
    (∀ tense,
       is_Some (report !! tense) ↔
       tense ∈ [py "presente"; py "imperfetto"; py "futuro";
                py "passato_remoto"] ∧
       ∃ full regular,
         observed !! tense = Some full ∧
         canonical infinitive tense = Some regular ∧
         (6 ≤ length full)%nat ∧ length regular = 6%nat ∧
         ∃ i a r, (i < 6)%nat ∧ full !! i = Some a ∧ regular !! i = Some r ∧
                  normalize_conjugation a ≠ normalize_conjugation r) ∧
    (∀ tense full,
       observed !! tense = Some full → (length full < 6)%nat →
       report !! tense = None) ∧
    (∀ tense,
       (get_verb_root infinitive).2 = py "OTHER" →
       tense ∈ [py "presente"; py "imperfetto"; py "passato_remoto"] →
       canonical infinitive tense = Some [] ∧ report !! tense = None) ∧
    (∀ tense full regular,
       observed !! tense = Some full →
       canonical infinitive tense = Some regular →
       (∀ i a r, (i < 6)%nat → full !! i = Some a → regular !! i = Some r →
                 normalize_conjugation a = normalize_conjugation r) →
       report !! tense = None).
Proof.
  destruct (compare_with_regular_lookup infinitive observed)
    as (report & Hrun & Hlookup).
  exists report. split; [done|].
  assert (∀ tense,
    is_Some (report !! tense) ↔
    tense ∈ [py "presente"; py "imperfetto"; py "futuro"; py "passato_remoto"] ∧
    ∃ full regular,
      observed !! tense = Some full ∧
      canonical infinitive tense = Some regular ∧
      (6 ≤ length full)%nat ∧ length regular = 6%nat ∧
      ∃ i a r, (i < 6)%nat ∧ full !! i = Some a ∧ regular !! i = Some r ∧
               normalize_conjugation a ≠ normalize_conjugation r) as Hiff.
  { intros tense. rewrite Hlookup. split.
    - intros [e He].
      destruct (canonical infinitive tense) as [regular|] eqn:Hc; [|done].
      cbn [mbind option_bind] in He.
      apply spec_entry_Some in He as (full & Hobs & Ho & Hr & Hd & _).
      split; [apply (canonical_is_Some infinitive tense); by rewrite Hc|].
      exists full, regular. split_and!; try done.
      by apply differing_positions_nonempty.
    - intros (_ & full & regular & Hobs & -> & Ho & Hr & Hd).
      cbn [mbind option_bind]. eexists. apply spec_entry_Some.
      exists full. split_and!; try done.
      by apply differing_positions_nonempty. }
  split; [exact Hiff|]. split_and!.
  - intros tense full Hobs Hlen. apply eq_None_not_Some.
    intros (_ & full' & regular & Hobs' & _ & Ho & _)%Hiff.
    rewrite Hobs in Hobs'. injection Hobs' as <-. lia.
  - intros tense Hgroup Htense.
    assert (canonical infinitive tense = Some []) as Hc.
    { unfold canonical. destruct (get_verb_root infinitive) as [root group].
      cbn [snd] in Hgroup. subst group.
      revert Htense. rewrite !elem_of_cons, elem_of_nil.
      intros [-> | [-> | [-> | []]]]; reflexivity. }
    split; [done|]. apply eq_None_not_Some.
    intros (_ & full' & regular & _ & Hc' & _ & Hr & _)%Hiff.
    rewrite Hc in Hc'. by injection Hc' as <-.
  - intros tense full regular Hobs Hc Hsame. apply eq_None_not_Some.
    intros (_ & full' & regular' & Hobs' & Hc' & _ & _ & i & a & r & Hi & Ha & Hr & Hne)%Hiff.
    rewrite Hobs in Hobs'. injection Hobs' as <-.
    rewrite Hc in Hc'. injection Hc' as <-.
    apply Hne. by eapply Hsame.
Qed.

(** C2: a reported entry carries the number of positions among the
    first six that differ, which lies between 1 and 6 and does not
    depend on what is observed past the sixth form, together with the
    whole observed sequence and the six canonical forms. *)
Theorem report_entry_contents (infinitive : str)
    (observed : gmap str (list str)) (report : gmap str entry)
    (tense : str) (e : entry) :
  compare_with_regular infinitive observed = Ok report →
  report !! tense = Some e →
  ∃ full regular,
    observed !! tense = Some full ∧
    canonical infinitive tense = Some regular ∧
    actual e = full ∧
    expected e = regular ∧ length regular = 6%nat ∧
    mismatches e = length (differing_positions full regular) ∧
    (1 ≤ mismatches e ≤ 6)%nat ∧
    mismatches e = length (differing_positions (take 6 full) regular).
Proof.
  intros Hrun He.
  destruct (compare_with_regular_lookup infinitive observed)
    as (report' & Hrun' & Hlookup).
  rewrite Hrun in Hrun'. injection Hrun' as <-.
  rewrite Hlookup in He.
  destruct (canonical infinitive tense) as [regular|] eqn:Hc; [|done].
  cbn [mbind option_bind] in He.
  apply spec_entry_Some in He as (full & Hobs & Ho & Hr & Hd & ->).
  exists full, regular. cbn [actual expected mismatches].
  split_and!; try done.
  - destruct (differing_positions full regular); [done | cbn [length]; lia].
  - apply differing_positions_length.
  - by rewrite <- differing_positions_take.
Qed.

Lemma report_entry_contents_witness :
  compare_with_regular (py "andare") andare_observed = Ok andare_report ∧
  andare_report !! py "presente" = Some andare_entry ∧
  ∃ full regular,
    andare_observed !! py "presente" = Some full ∧
    canonical (py "andare") (py "presente") = Some regular ∧
    actual andare_entry = full ∧
    expected andare_entry = regular ∧ length regular = 6%nat ∧
    mismatches andare_entry = length (differing_positions full regular) ∧
    (1 ≤ mismatches andare_entry ≤ 6)%nat ∧
    mismatches andare_entry
    = length (differing_positions (take 6 full) regular).
Proof.
  assert (compare_with_regular (py "andare") andare_observed = Ok andare_report)
    as Hrun by (vm_compute; reflexivity).
  assert (andare_report !! py "presente" = Some andare_entry)
    as He by (vm_compute; reflexivity).
  split; [exact Hrun|]. split; [exact He|].
  exact (report_entry_contents (py "andare") andare_observed andare_report
           (py "presente") andare_entry Hrun He).
Defined.

(** C9: for "andare" the generator gives ando, andi, anda, andiamo,
    andate, andano; against the observed vado, vai, va, andiamo, andate,
    vanno the positions 0, 1, 2 and 5 differ and 3 and 4 agree; and the
    report has a presente entry with the count 4, whatever else is
    observed. *)
Theorem andare_presente_report (observed : gmap str (list str)) :
  observed !! py "presente" = Some andare_presente →
  get_verb_root (py "andare") = (py "and", py "ARE") ∧
  get_regular_presente (py "and") (py "ARE") = andare_regular ∧
  differing_positions andare_presente andare_regular = [0; 1; 2; 5]%nat ∧
  ∃ report,
    compare_with_regular (py "andare") observed = Ok report ∧
    report !! py "presente" = Some (Entry 4 andare_presente andare_regular).
Proof.
  intros Hobs. split_and!.
  - vm_compute. reflexivity.
  - vm_compute. reflexivity.
  - vm_compute. reflexivity.
  - destruct (compare_with_regular_lookup (py "andare") observed)
      as (report & Hrun & Hlookup).
    exists report. split; [done|].
    rewrite Hlookup, Hobs. vm_compute. reflexivity.
Qed.

Lemma andare_presente_report_witness :
  andare_observed !! py "presente" = Some andare_presente ∧
  ∃ report,
    compare_with_regular (py "andare") andare_observed = Ok report ∧
    report !! py "presente" = Some (Entry 4 andare_presente andare_regular).
Proof.
  assert (andare_observed !! py "presente" = Some andare_presente) as Hobs
    by (vm_compute; reflexivity).
  split; [exact Hobs|].
  exact (proj2 (proj2 (proj2 (andare_presente_report andare_observed Hobs)))).
Defined.

Lemma get_verb_root_spec_witness :
  get_verb_root (py "parlare") = (py "parl", py "ARE") ∧
  get_verb_root (py "porre") = (py "porre", py "OTHER").
Proof.
  split.
  - apply (proj1 (get_verb_root_spec (py "parlare")) (py "parl")).
    vm_compute. reflexivity.
  - apply (proj2 (proj2 (proj2 (get_verb_root_spec (py "porre"))))).
    + intros H%endswith_spec. vm_compute in H. discriminate.
    + intros H%endswith_spec. vm_compute in H. discriminate.
    + intros H%endswith_spec. vm_compute in H. discriminate.
Defined.

(** ** The accented endings

    Where an accented vowel is meant, the source holds two code points:
    U+221A followed by a second symbol.  The generators append them as
    they stand, and the normaliser looks for them and not for the
    vowels. *)

(** The futuro has six forms for every infinitive: the stem is the
    infinitive without a final "are" plus "er", or else the infinitive
    without its last code point, followed by the endings as the source
    writes them. *)
Lemma get_regular_futuro_spec (infinitive : str) :
  length (get_regular_futuro infinitive) = 6%nat ∧
  get_regular_futuro infinitive ≠ [] ∧
  (∀ root, infinitive = root ++ py "are" →
     get_regular_futuro infinitive
     = ((root ++ py "er") ++.) <$>
         [py "√≤"; py "ai"; py "√†"; py "emo"; py "ete"; py "anno"]) ∧
  (¬ py "are" `suffix_of` infinitive →
     get_regular_futuro infinitive
     = (drop_last 1 infinitive ++.) <$>
         [py "√≤"; py "ai"; py "√†"; py "emo"; py "ete"; py "anno"]).
Proof.
  split_and!; try done.
  - intros root ->. unfold get_regular_futuro. rewrite endswith_app.
    by rewrite (drop_last_app root (py "are")).
  - intros Hne. unfold get_regular_futuro. by rewrite endswith_false.
Qed.

(** C3: the futuro of "parlare" as the source computes it.  The first
    and the third form end in the two code points the source holds, not
    in the accented vowels. *)
Theorem get_regular_futuro_parlare :
  get_regular_futuro (py "parlare")
  = [py "parler√≤"; py "parlerai"; py "parler√†";
     py "parleremo"; py "parlerete"; py "parleranno"] ∧
  get_regular_futuro (py "parlare")
  ≠ [py "parlerò"; py "parlerai"; py "parlerà";
     py "parleremo"; py "parlerete"; py "parleranno"].
Proof.
  split.
  - vm_compute. reflexivity.
  - intros H. vm_compute in H. discriminate.
Qed.

(** C5: the passato remoto of "parl", "cred" and "dorm" as the source
    computes it.  The third form ends in the two code points the source
    holds, not in the accented vowel; a group that is none of the three
    gets no forms. *)
Theorem get_regular_passato_remoto_accents :
  get_regular_passato_remoto (py "parl") (py "ARE")
  = [py "parlai"; py "parlasti"; py "parl√≤";
     py "parlammo"; py "parlaste"; py "parlarono"] ∧
  get_regular_passato_remoto (py "cred") (py "ERE")
  = [py "credei"; py "credesti"; py "cred√©";
     py "credemmo"; py "credeste"; py "crederono"] ∧
  get_regular_passato_remoto (py "dorm") (py "IRE")
  = [py "dormii"; py "dormisti"; py "dorm√¨";
     py "dormimmo"; py "dormiste"; py "dormirono"] ∧
  get_regular_passato_remoto (py "parl") (py "ARE") !! 2%nat
  ≠ Some (py "parlò") ∧
  get_regular_passato_remoto (py "cred") (py "ERE") !! 2%nat
  ≠ Some (py "credé") ∧
  get_regular_passato_remoto (py "dorm") (py "IRE") !! 2%nat
  ≠ Some (py "dormì") ∧
  ∀ root,
    get_regular_presente root (py "OTHER") = [] ∧
    get_regular_imperfetto root (py "OTHER") = [] ∧
    get_regular_passato_remoto root (py "OTHER") = [] ∧
    length (get_regular_futuro root) = 6%nat.
Proof.
  split_and!; try (vm_compute; reflexivity);
    try (intros H; vm_compute in H; discriminate).
  intros root. split_and!; reflexivity.
Qed.

(** C7: the normaliser lower-cases and strips, but leaves the accented
    vowels as they are: what it replaces is the two-code-point patterns
    of [replacements].  "PARLÒ" and "parlo" get different keys. *)
Theorem normalize_conjugation_accents :
  normalize_conjugation (py "  PARLÒ ") = py "parlò" ∧
  normalize_conjugation (py "parlo") = py "parlo" ∧
  normalize_conjugation (py "PARLÒ") ≠ normalize_conjugation (py "parlo") ∧
  normalize_conjugation (py "àèéìòù") = py "àèéìòù" ∧
  normalize_conjugation (py "√†√®√©√¨√≤√π") = py "aeeiou".
Proof.
  split_and!; try (vm_compute; reflexivity).
  intros H. vm_compute in H. discriminate.
Qed.

(** What follows for a regular verb: the futuro of "parlare", observed
    with its accents, is reported with two mismatches. *)
Example parlare_futuro_reported :
  ∃ report,
    compare_with_regular (py "parlare")
      {[ py "futuro" := [py "parlerò"; py "parlerai"; py "parlerà";
                         py "parleremo"; py "parlerete"; py "parleranno"] ]}
    = Ok report ∧
    mismatches <$> report !! py "futuro" = Some 2%nat.
Proof. eexists. split; vm_compute; reflexivity. Qed.

(** ** Infinitives of no group *)

Lemma compare_with_regular_total (infinitive : str)
    (observed : gmap str (list str)) :
  ∃ report, compare_with_regular infinitive observed = Ok report.
Proof. eexists. apply compare_with_regular_unfold. Qed.

Lemma spec_entry_nil (observed : option (list str)) :
  spec_entry observed [] = None.
Proof.
  destruct observed as [full|]; [|done]. unfold spec_entry.
  rewrite (bool_decide_eq_false_2 (length (@nil str) = 6%nat)) by done.
  by rewrite andb_false_r.
Qed.

(** An infinitive with none of the three suffixes is of group OTHER and
    its own root; of its tenses only the futuro is compared. *)
Lemma other_infinitive_report (infinitive : str)
    (observed : gmap str (list str)) :
  ¬ py "are" `suffix_of` infinitive →
  ¬ py "ere" `suffix_of` infinitive →
  ¬ py "ire" `suffix_of` infinitive →
  get_verb_root infinitive = (infinitive, py "OTHER") ∧
  ∃ report,
    compare_with_regular infinitive observed = Ok report ∧
    report !! py "presente" = None ∧
    report !! py "imperfetto" = None ∧
    report !! py "passato_remoto" = None ∧
    report !! py "futuro"
    = spec_entry (observed !! py "futuro") (get_regular_futuro infinitive).
Proof.
  intros Ha He Hi.
  pose proof (get_verb_root_other infinitive Ha He Hi) as Hroot.
  split; [done|].
  destruct (compare_with_regular_lookup infinitive observed)
    as (report & Hrun & Hlookup).
  exists report. split; [done|]. rewrite !Hlookup.
  assert (canonical infinitive (py "presente") = Some []) as ->
    by (unfold canonical; rewrite Hroot; reflexivity).
  assert (canonical infinitive (py "imperfetto") = Some []) as ->
    by (unfold canonical; rewrite Hroot; reflexivity).
  assert (canonical infinitive (py "passato_remoto") = Some []) as ->
    by (unfold canonical; rewrite Hroot; reflexivity).
  assert (canonical infinitive (py "futuro")
          = Some (get_regular_futuro infinitive)) as ->
    by (unfold canonical; rewrite Hroot; reflexivity).
  cbn [mbind option_bind]. by rewrite !spec_entry_nil.
Qed.

(** C10: the analysis returns a report for every infinitive, and an
    infinitive with none of the three suffixes, the empty string
    included, has only its futuro compared.  For the empty string the
    stem is empty and the six forms are the bare endings as the source
    writes them, the first and the third being two code points each and
    not the accented vowels. *)
Theorem other_infinitive_analysis :
  (∀ infinitive observed,
     ∃ report, compare_with_regular infinitive observed = Ok report) ∧
  (∀ infinitive observed,
     ¬ py "are" `suffix_of` infinitive →
     ¬ py "ere" `suffix_of` infinitive →
     ¬ py "ire" `suffix_of` infinitive →
     get_verb_root infinitive = (infinitive, py "OTHER") ∧
     ∃ report,
       compare_with_regular infinitive observed = Ok report ∧
       report !! py "presente" = None ∧
       report !! py "imperfetto" = None ∧
       report !! py "passato_remoto" = None ∧
       report !! py "futuro"
       = spec_entry (observed !! py "futuro") (get_regular_futuro infinitive)) ∧
  get_verb_root (py "") = (py "", py "OTHER") ∧
  get_regular_futuro (py "")
  = [py "√≤"; py "ai"; py "√†"; py "emo"; py "ete"; py "anno"] ∧
  get_regular_futuro (py "")
  ≠ [py "ò"; py "ai"; py "à"; py "emo"; py "ete"; py "anno"].
Proof.
  split_and!.
  - apply compare_with_regular_total.
  - apply other_infinitive_report.
  - vm_compute. reflexivity.
  - vm_compute. reflexivity.
  - intros H. vm_compute in H. discriminate.
Qed.
